(** * Matriz5x5: the WS2812B 5x5 LED matrix driver (matriz.c)

    A shallow embedding of the driver and the proofs of its specification.

    - [uint], [uint32_t] values are integers in [Z] with the 32-bit
      wrap-around written out; [uint8_t] values are integers below 256.
    - The static array [matriz_buffer] is a [list Z] of [LED_COUNT] words,
      read with stdpp's lookup and written with its insert.
    - The only output of the driver is what it pushes into the PIO TX FIFO
      with [pio_sm_put_blocking]; the machine state records those pushes, in
      order, next to the buffer. *)

From Stdlib Require Import ZArith Lia.
From stdpp Require Import base numbers list.

Local Open Scope Z_scope.

(** ** Machine integers *)

Definition UINT_MOD : Z := 2 ^ 32.

(** Reduction of a mathematical result to an unsigned 32-bit value. *)
Definition wrap32 (z : Z) : Z := z mod UINT_MOD.

Definition is_uint (z : Z) : Prop := 0 <= z < UINT_MOD.
Definition is_u8 (z : Z) : Prop := 0 <= z < 256.

(** [a << k] on [uint32_t]. *)
Definition shl32 (a k : Z) : Z := wrap32 (Z.shiftl a k).

(** ** The PIO collaborator *)

Inductive PIO : Set := pio0 | pio1.

(** One word accepted by the TX FIFO of state machine [tx_sm] of [tx_pio]. *)
Record tx_event : Set := Put { tx_pio : PIO; tx_sm : Z; tx_data : Z }.

(** ** Driver state *)

Definition LED_COUNT : Z := 25.

Record machine : Type := Machine {
  matriz_buffer : list Z;
  pio_tx : list tx_event
}.

(** [static uint32_t matriz_buffer[LED_COUNT] = {0};] and nothing sent yet. *)
Definition machine_init : machine :=
  Machine (replicate (Z.to_nat LED_COUNT) 0) [].

(** The array has its declared size. *)
Definition wf (s : machine) : Prop :=
  length (matriz_buffer s) = Z.to_nat LED_COUNT.

Definition set_buffer (buf : list Z) (s : machine) : machine :=
  Machine buf (pio_tx s).

(** The SDK primitive: the word is queued; the call returns once it is. *)
Definition pio_sm_put_blocking (pio : PIO) (sm data : Z) (s : machine) : machine :=
  Machine (matriz_buffer s) (pio_tx s ++ [Put pio sm data]).

(** ** Static helpers of matriz.c *)

Definition urgb_u32 (r g b : Z) : Z :=
  Z.lor (Z.lor (shl32 g 16) (shl32 r 8)) b.

Definition put_pixel_raw (pixel_grb : Z) (s : machine) : machine :=
  pio_sm_put_blocking pio0 0 (shl32 pixel_grb 8) s.

Definition xy_to_index (x y : Z) : Z :=
  let inverted_y := wrap32 (4 - y) in
  if inverted_y mod 2 =? 0
  then wrap32 (inverted_y * 5 + x)
  else wrap32 (inverted_y * 5 + wrap32 (4 - x)).

(** ** memset on the buffer

    The buffer is seen as bytes (the RP2040 is little-endian), [memset]
    overwrites the first [n] of them, and the words are read back. *)

Definition bytes_of_word (w : Z) : list Z :=
  [w mod 256; (w / 256) mod 256; (w / 65536) mod 256; (w / 16777216) mod 256].

Definition bytes_of_words (ws : list Z) : list Z :=
  concat (map bytes_of_word ws).

Fixpoint words_of_bytes (bs : list Z) : list Z :=
  match bs with
  | b0 :: b1 :: b2 :: b3 :: rest =>
      (b0 + 256 * b1 + 65536 * b2 + 16777216 * b3) :: words_of_bytes rest
  | _ => []
  end.

(** [memset(dst, c, n)]: [n] bytes of [dst] become [(unsigned char) c]. *)
Definition memset (dst : list Z) (c : Z) (n : nat) : list Z :=
  replicate n (c mod 256) ++ drop n dst.

Definition sizeof_matriz_buffer : Z := LED_COUNT * 4.

(** ** Public API *)

Definition matriz_limpar (s : machine) : machine :=
  set_buffer
    (words_of_bytes
       (memset (bytes_of_words (matriz_buffer s)) 0
               (Z.to_nat sizeof_matriz_buffer)))
    s.

(** [x], [y] are [uint] and [r], [g], [b] are [uint8_t]: the values a call
    can pass satisfy [is_uint] and [is_u8]. The store is only reached with
    an index inside the array (lemma [set_pixel_index_in_bounds]). *)
Definition matriz_set_pixel (x y r g b : Z) (s : machine) : machine :=
  if (x <? 5) && (y <? 5)
  then set_buffer
         (<[ Z.to_nat (xy_to_index x y) := urgb_u32 r g b ]> (matriz_buffer s)) s
  else s.

(** [for (int i = 0; i < LED_COUNT; ++i) put_pixel_raw(matriz_buffer[i]);]
    The counter takes the values 0, 1, ..., LED_COUNT - 1 in turn. *)
Definition matriz_renderizar (s : machine) : machine :=
  foldl (fun st i => put_pixel_raw (matriz_buffer st !!! Z.to_nat i) st)
        s (seqZ 0 LED_COUNT).

(** ** Specification-side definitions *)

(** The mapping as the specification words it: flip the row, then run even
    rows left to right and odd rows right to left. *)
Definition serpentine_index (x y : Z) : Z :=
  let row' := 4 - y in
  if Z.even row' then row' * 5 + x else row' * 5 + (4 - x).

(** The coordinate that a buffer slot belongs to (not in the source; the
    inverse used to show that the mapping is onto). *)
Definition index_to_xy (i : Z) : Z * Z :=
  let row' := i / 5 in
  let col := i mod 5 in
  (if Z.even row' then col else 4 - col, 4 - row').

Definition in_grid (x y : Z) : Prop := 0 <= x <= 4 /\ 0 <= y <= 4.

(** The packed word as the specification writes it, without wrap-around. *)
Definition grb_word (r g b : Z) : Z :=
  Z.lor (Z.lor (Z.shiftl g 16) (Z.shiftl r 8)) b.

(** Every stored word fits in 24 bits. *)
Definition buffer_inv (s : machine) : Prop :=
  Forall (fun w => 0 <= w < 2 ^ 24) (matriz_buffer s).

(** What [matriz_renderizar] hands to the transmitter for a stored word. *)
Definition wire_word (w : Z) : tx_event := Put pio0 0 (shl32 w 8).

(** The 32-bit word on the wire for a colour: green, red and blue in the
    three high bytes, the low byte left empty. *)
Definition wire_grb (r g b : Z) : Z := g * 2 ^ 24 + r * 2 ^ 16 + b * 2 ^ 8.

(** ** Clients of the API

    A caller is a sequence of calls of the three buffer operations of
    matriz.h, with arguments of the parameters' types. *)

Inductive api_call : Set :=
| CallLimpar
| CallSetPixel (x y r g b : Z)
| CallRenderizar.

Definition call_typed (c : api_call) : Prop :=
  match c with
  | CallSetPixel x y r g b =>
      is_uint x /\ is_uint y /\ is_u8 r /\ is_u8 g /\ is_u8 b
  | _ => True
  end.

Definition run_call (s : machine) (c : api_call) : machine :=
  match c with
  | CallLimpar => matriz_limpar s
  | CallSetPixel x y r g b => matriz_set_pixel x y r g b s
  | CallRenderizar => matriz_renderizar s
  end.

Definition run_calls (cs : list api_call) (s : machine) : machine :=
  foldl run_call s cs.

Fixpoint count_renders (cs : list api_call) : nat :=
  match cs with
  | [] => 0
  | CallRenderizar :: cs' => S (count_renders cs')
  | _ :: cs' => count_renders cs'
  end.

(** * Proofs *)

(** ** Machine arithmetic *)

Lemma wrap32_small (z : Z) : 0 <= z < UINT_MOD -> wrap32 z = z.
Proof. intros Hz. unfold wrap32. apply Z.mod_small. exact Hz. Qed.

Lemma UINT_MOD_value : UINT_MOD = 4294967296.
Proof. reflexivity. Qed.

Lemma Zeven_mod2 (z : Z) : (z mod 2 =? 0) = Z.even z.
Proof.
  rewrite Zeven_mod. reflexivity.
Qed.

(** ** Coordinate mapper *)

Section Mapper.
Variables x y : Z.
Hypothesis Hgrid : in_grid x y.

(** On the grid none of the unsigned operations wraps. *)
Lemma xy_to_index_no_wrap : xy_to_index x y = serpentine_index x y.
Proof using Hgrid.
  destruct Hgrid as [Hx Hy].
  unfold xy_to_index, serpentine_index; cbv zeta.
  rewrite (wrap32_small (4 - y)) by (rewrite UINT_MOD_value; lia).
  rewrite (wrap32_small (4 - x)) by (rewrite UINT_MOD_value; lia).
  rewrite Zeven_mod2.
  destruct (Z.even (4 - y)); apply wrap32_small; rewrite UINT_MOD_value; nia.
Qed.

Lemma serpentine_index_range : 0 <= serpentine_index x y <= 24.
Proof using Hgrid.
  destruct Hgrid as [Hx Hy].
  unfold serpentine_index; cbv zeta.
  destruct (Z.even (4 - y)); nia.
Qed.

Lemma xy_to_index_range : 0 <= xy_to_index x y <= 24.
Proof using Hgrid.
  rewrite xy_to_index_no_wrap. apply serpentine_index_range.
Qed.

(** Row and column are recovered from the slot by division by 5. *)
Lemma index_to_xy_serpentine : index_to_xy (serpentine_index x y) = (x, y).
Proof using Hgrid.
  destruct Hgrid as [Hx Hy].
  unfold index_to_xy, serpentine_index; cbv zeta.
  destruct (Z.even (4 - y)) eqn:Heven.
  - replace ((4 - y) * 5 + x) with (x + (4 - y) * 5) by lia.
    rewrite Z.div_add, Z.mod_add by lia.
    rewrite Z.div_small, Z.mod_small by lia.
    rewrite Z.add_0_l, Heven. f_equal; lia.
  - replace ((4 - y) * 5 + (4 - x)) with ((4 - x) + (4 - y) * 5) by lia.
    rewrite Z.div_add, Z.mod_add by lia.
    rewrite Z.div_small, Z.mod_small by lia.
    rewrite Z.add_0_l, Heven. f_equal; lia.
Qed.
End Mapper.

Lemma index_to_xy_in_grid (i : Z) :
  0 <= i <= 24 -> in_grid (fst (index_to_xy i)) (snd (index_to_xy i)).
Proof.
  intros Hi. unfold index_to_xy, in_grid; cbv zeta; simpl.
  assert (0 <= i / 5 <= 4) by (Z.div_mod_to_equations; lia).
  assert (0 <= i mod 5 < 5) by (apply Z.mod_pos_bound; lia).
  destruct (Z.even (i / 5)); lia.
Qed.

Lemma serpentine_index_to_xy (i : Z) :
  0 <= i <= 24 ->
  serpentine_index (fst (index_to_xy i)) (snd (index_to_xy i)) = i.
Proof.
  intros Hi. unfold index_to_xy, serpentine_index; cbv zeta; simpl.
  replace (4 - (4 - i / 5)) with (i / 5) by lia.
  pose proof (Z.div_mod i 5 ltac:(lia)) as Hdm.
  destruct (Z.even (i / 5)); lia.
Qed.

(** C1: on the grid [0,4]x[0,4] the mapping [xy_to_index] is a bijection
    onto the slots [0,24]: it lands in [0,24], no two distinct coordinates
    share a slot, and every slot is the image of a coordinate. *)
Theorem xy_to_index_bijection :
  (forall x y, in_grid x y -> 0 <= xy_to_index x y <= 24) /\
  (forall x y x' y', in_grid x y -> in_grid x' y' ->
     xy_to_index x y = xy_to_index x' y' -> x = x' /\ y = y') /\
  (forall i, 0 <= i <= 24 ->
     exists x y, in_grid x y /\ xy_to_index x y = i).
Proof.
  split; [|split].
  - intros x y H. apply xy_to_index_range. exact H.
  - intros x y x' y' H H' Heq.
    rewrite !xy_to_index_no_wrap in Heq by assumption.
    apply (f_equal index_to_xy) in Heq.
    rewrite !index_to_xy_serpentine in Heq by assumption.
    inversion Heq. split; reflexivity.
  - intros i Hi.
    exists (fst (index_to_xy i)), (snd (index_to_xy i)).
    pose proof (index_to_xy_in_grid i Hi) as Hg.
    split; [exact Hg|].
    rewrite xy_to_index_no_wrap by exact Hg.
    apply serpentine_index_to_xy. exact Hi.
Qed.

Lemma xy_to_index_bijection_witness :
  0 <= xy_to_index 2 3 <= 24 /\
  (xy_to_index 1 2 = xy_to_index 1 2 -> 1 = 1 /\ 2 = 2) /\
  (exists x y, in_grid x y /\ xy_to_index x y = 7).
Proof.
  split; [|split].
  - apply (proj1 xy_to_index_bijection). unfold in_grid. lia.
  - apply (proj1 (proj2 xy_to_index_bijection)); unfold in_grid; lia.
  - apply (proj2 (proj2 xy_to_index_bijection)). lia.
Defined.

(** C2: on the grid, [xy_to_index x y] is the serpentine formula with the
    vertical flip (row' = 4 - y; row' * 5 + x on even rows, row' * 5 + (4 - x)
    on odd rows); index(0,4) = 0, index(4,4) = 4, index(0,3) = 9 and
    index(4,3) = 5. *)
Theorem xy_to_index_serpentine :
  (forall x y, in_grid x y ->
     xy_to_index x y =
     if Z.even (4 - y) then (4 - y) * 5 + x else (4 - y) * 5 + (4 - x)) /\
  xy_to_index 0 4 = 0 /\ xy_to_index 4 4 = 4 /\
  xy_to_index 0 3 = 9 /\ xy_to_index 4 3 = 5.
Proof.
  split.
  - intros x y H. rewrite xy_to_index_no_wrap by exact H. reflexivity.
  - repeat split; reflexivity.
Qed.

Lemma xy_to_index_serpentine_witness :
  xy_to_index 3 1 = (if Z.even (4 - 1) then (4 - 1) * 5 + 3 else (4 - 1) * 5 + (4 - 3)).
Proof.
  apply (proj1 xy_to_index_serpentine). unfold in_grid. lia.
Defined.

(** ** Colour packing *)

Lemma lor_lt_pow2 (a b n : Z) :
  0 < n -> 0 <= a < 2 ^ n -> 0 <= b < 2 ^ n -> 0 <= Z.lor a b < 2 ^ n.
Proof.
  intros Hn Ha Hb.
  assert (Hnn : 0 <= Z.lor a b) by (apply Z.lor_nonneg; lia).
  split; [exact Hnn|].
  destruct (Z.eq_dec (Z.lor a b) 0) as [E|E]; [rewrite E; lia|].
  apply Z.log2_lt_pow2; [lia|].
  rewrite Z.log2_lor by lia.
  apply Z.max_lub_lt.
  - destruct (Z.eq_dec a 0) as [->|]; [exact Hn|]. apply Z.log2_lt_pow2; lia.
  - destruct (Z.eq_dec b 0) as [->|]; [exact Hn|]. apply Z.log2_lt_pow2; lia.
Qed.

Lemma shl32_small (a k : Z) :
  0 <= k -> 0 <= a -> a * 2 ^ k < UINT_MOD -> shl32 a k = Z.shiftl a k.
Proof.
  intros Hk Ha Hlt. unfold shl32.
  apply wrap32_small. rewrite Z.shiftl_mul_pow2 by exact Hk.
  split; [|exact Hlt]. apply Z.mul_nonneg_nonneg; [exact Ha|].
  apply Z.pow_nonneg. lia.
Qed.

Section Packing.
Variables r g b : Z.
Hypothesis Hr : is_u8 r.
Hypothesis Hg : is_u8 g.
Hypothesis Hb : is_u8 b.

(** With 8-bit channels the 32-bit shifts lose nothing. *)
Lemma urgb_u32_grb_word : urgb_u32 r g b = grb_word r g b.
Proof using Hr Hg.
  unfold is_u8 in *. unfold urgb_u32, grb_word.
  rewrite !shl32_small by (rewrite ?UINT_MOD_value; lia).
  reflexivity.
Qed.

Lemma grb_word_24bit : 0 <= grb_word r g b < 2 ^ 24.
Proof using Hr Hg Hb.
  unfold is_u8 in *. unfold grb_word.
  rewrite !Z.shiftl_mul_pow2 by lia.
  apply lor_lt_pow2; [lia| |lia].
  apply lor_lt_pow2; lia.
Qed.

Lemma urgb_u32_24bit : 0 <= urgb_u32 r g b < 2 ^ 24.
Proof using Hr Hg Hb.
  rewrite urgb_u32_grb_word. apply grb_word_24bit.
Qed.
End Packing.

(** ** Pixel buffer *)

Lemma set_pixel_in_grid (x y r g b : Z) (s : machine) :
  in_grid x y ->
  matriz_set_pixel x y r g b s =
  set_buffer (<[ Z.to_nat (xy_to_index x y) := urgb_u32 r g b ]> (matriz_buffer s)) s.
Proof.
  intros [Hx Hy]. unfold matriz_set_pixel.
  replace (x <? 5) with true by (symmetry; apply Z.ltb_lt; lia).
  replace (y <? 5) with true by (symmetry; apply Z.ltb_lt; lia).
  reflexivity.
Qed.

(** The guarded store never indexes outside the array. *)
Lemma set_pixel_index_in_bounds (x y : Z) (s : machine) :
  wf s -> in_grid x y ->
  (Z.to_nat (xy_to_index x y) < length (matriz_buffer s))%nat.
Proof.
  intros Hwf Hg. rewrite Hwf.
  pose proof (xy_to_index_range x y Hg). unfold LED_COUNT. lia.
Qed.

Lemma matriz_set_pixel_wf (x y r g b : Z) (s : machine) :
  wf s -> wf (matriz_set_pixel x y r g b s).
Proof.
  intros Hwf. unfold matriz_set_pixel.
  destruct ((x <? 5) && (y <? 5)); [|exact Hwf].
  unfold wf, set_buffer; simpl. rewrite length_insert. exact Hwf.
Qed.

(** C3: for a coordinate on the grid and 8-bit channels, after
    [matriz_set_pixel x y r g b] the slot [xy_to_index x y] holds the packed
    word (g << 16) | (r << 8) | b; set_pixel(0,0,255,0,128) stores
    0x0000FF80. *)
Theorem matriz_set_pixel_stores_grb :
  (forall (s : machine) (x y r g b : Z),
     wf s -> in_grid x y -> is_u8 r -> is_u8 g -> is_u8 b ->
     matriz_buffer (matriz_set_pixel x y r g b s) !! Z.to_nat (xy_to_index x y)
     = Some (Z.lor (Z.lor (Z.shiftl g 16) (Z.shiftl r 8)) b)) /\
  (forall s : machine,
     wf s ->
     matriz_buffer (matriz_set_pixel 0 0 255 0 128 s) !! Z.to_nat (xy_to_index 0 0)
     = Some 0x0000FF80).
Proof.
  assert (Hgen : forall (s : machine) (x y r g b : Z),
     wf s -> in_grid x y -> is_u8 r -> is_u8 g -> is_u8 b ->
     matriz_buffer (matriz_set_pixel x y r g b s) !! Z.to_nat (xy_to_index x y)
     = Some (grb_word r g b)).
  { intros s x y r g b Hwf Hgrid Hr Hg Hb.
    rewrite set_pixel_in_grid by exact Hgrid. simpl.
    rewrite list_lookup_insert_eq by (apply set_pixel_index_in_bounds; assumption).
    rewrite urgb_u32_grb_word by assumption. reflexivity. }
  split; [exact Hgen|].
  intros s Hwf.
  rewrite Hgen; [reflexivity|exact Hwf|..]; unfold in_grid, is_u8; lia.
Qed.

Lemma matriz_set_pixel_stores_grb_witness :
  matriz_buffer (matriz_set_pixel 2 1 10 20 30 machine_init) !! Z.to_nat (xy_to_index 2 1)
  = Some (Z.lor (Z.lor (Z.shiftl 20 16) (Z.shiftl 10 8)) 30).
Proof.
  apply (proj1 matriz_set_pixel_stores_grb);
    [reflexivity | unfold in_grid; lia | unfold is_u8; lia ..].
Defined.

(** C4: with x > 4 or y > 4, [matriz_set_pixel] returns the machine it was
    given: the whole buffer (and the transmit log) is unchanged and there is
    nothing else it reports; so for set_pixel(5,0,...) and set_pixel(0,5,...). *)
Theorem matriz_set_pixel_out_of_range :
  (forall (s : machine) (x y r g b : Z),
     x > 4 \/ y > 4 -> matriz_set_pixel x y r g b s = s) /\
  (forall (s : machine) (r g b : Z), matriz_set_pixel 5 0 r g b s = s) /\
  (forall (s : machine) (r g b : Z), matriz_set_pixel 0 5 r g b s = s).
Proof.
  split; [|split; reflexivity].
  intros s x y r g b Hout. unfold matriz_set_pixel.
  destruct Hout as [Hx|Hy].
  - replace (x <? 5) with false by (symmetry; apply Z.ltb_ge; lia). reflexivity.
  - replace (y <? 5) with false by (symmetry; apply Z.ltb_ge; lia).
    rewrite andb_false_r. reflexivity.
Qed.

Lemma matriz_set_pixel_out_of_range_witness :
  matriz_set_pixel 7 2 1 2 3 machine_init = machine_init /\
  matriz_set_pixel 4294967295 0 1 2 3 machine_init = machine_init.
Proof.
  split; apply (proj1 matriz_set_pixel_out_of_range); lia.
Defined.

(** ** clear *)

Lemma length_bytes_of_words (ws : list Z) :
  length (bytes_of_words ws) = (4 * length ws)%nat.
Proof.
  unfold bytes_of_words.
  induction ws as [|w ws IH]; [reflexivity|].
  simpl. simpl in IH. rewrite IH. lia.
Qed.

(** A [memset] over the whole array leaves none of the old bytes. *)
Lemma memset_whole_buffer (s : machine) (c : Z) :
  wf s ->
  memset (bytes_of_words (matriz_buffer s)) c (Z.to_nat sizeof_matriz_buffer)
  = replicate (Z.to_nat sizeof_matriz_buffer) (c mod 256).
Proof.
  intros Hwf. unfold memset.
  rewrite drop_ge; [apply app_nil_r|].
  rewrite length_bytes_of_words, Hwf. reflexivity.
Qed.

Lemma matriz_limpar_buffer (s : machine) :
  wf s -> matriz_buffer (matriz_limpar s) = replicate (Z.to_nat LED_COUNT) 0.
Proof.
  intros Hwf. unfold matriz_limpar, set_buffer; cbn [matriz_buffer].
  rewrite memset_whole_buffer by exact Hwf. reflexivity.
Qed.

Lemma matriz_limpar_wf (s : machine) : wf s -> wf (matriz_limpar s).
Proof.
  intros Hwf. unfold wf. rewrite matriz_limpar_buffer by exact Hwf.
  apply length_replicate.
Qed.

(** C7: [matriz_limpar] leaves a buffer of 25 slots that all hold the zero
    word, whatever the buffer held before; it changes nothing but the buffer
    (nothing is handed to the transmitter) and, being a total function that
    returns a machine, cannot fail. *)
Theorem matriz_limpar_zeroes (s : machine) :
  wf s ->
  length (matriz_buffer (matriz_limpar s)) = 25%nat /\
  (forall i w, matriz_buffer (matriz_limpar s) !! i = Some w -> w = 0) /\
  (forall i, (i < 25)%nat -> matriz_buffer (matriz_limpar s) !! i = Some 0) /\
  pio_tx (matriz_limpar s) = pio_tx s.
Proof.
  intros Hwf. rewrite matriz_limpar_buffer by exact Hwf.
  split; [apply length_replicate|].
  split; [|split].
  - intros i w Hi. apply lookup_replicate in Hi. exact (proj1 Hi).
  - intros i Hi. apply lookup_replicate. split; [reflexivity|exact Hi].
  - reflexivity.
Qed.

Lemma matriz_limpar_zeroes_witness :
  matriz_buffer (matriz_limpar (matriz_set_pixel 1 1 9 8 7 machine_init)) !! 16%nat
  = Some 0.
Proof.
  refine (proj1 (proj2 (proj2 (matriz_limpar_zeroes
            (matriz_set_pixel 1 1 9 8 7 machine_init) _))) 16%nat _).
  - reflexivity.
  - lia.
Defined.

(** ** set_pixel: frame and overwrite *)

(** C8: for a coordinate on the grid, [matriz_set_pixel] changes only the
    slot [xy_to_index x y]: every other slot keeps its value, the array keeps
    its size, and nothing is handed to the transmitter. *)
Theorem matriz_set_pixel_frame (s : machine) (x y r g b : Z) :
  in_grid x y ->
  (forall i : nat,
     i <> Z.to_nat (xy_to_index x y) ->
     matriz_buffer (matriz_set_pixel x y r g b s) !! i = matriz_buffer s !! i) /\
  length (matriz_buffer (matriz_set_pixel x y r g b s)) = length (matriz_buffer s) /\
  pio_tx (matriz_set_pixel x y r g b s) = pio_tx s.
Proof.
  intros Hgrid. rewrite set_pixel_in_grid by exact Hgrid. simpl.
  split; [|split].
  - intros i Hi. apply list_lookup_insert_ne. congruence.
  - apply length_insert.
  - reflexivity.
Qed.

Lemma matriz_set_pixel_frame_witness :
  matriz_buffer (matriz_set_pixel 0 0 255 0 128 machine_init) !! 3%nat
  = matriz_buffer machine_init !! 3%nat.
Proof.
  refine (proj1 (matriz_set_pixel_frame machine_init 0 0 255 0 128 _) 3%nat _).
  - unfold in_grid. lia.
  - vm_compute. lia.
Defined.

(** C9: the last write to a coordinate wins: on the grid, setting (x, y) to
    one colour and then to another gives the buffer (and machine) that the
    second call alone gives; so setting the same colour twice is the same as
    setting it once. *)
Theorem matriz_set_pixel_last_write_wins (s : machine) (x y r1 g1 b1 r2 g2 b2 : Z) :
  in_grid x y ->
  matriz_set_pixel x y r2 g2 b2 (matriz_set_pixel x y r1 g1 b1 s)
  = matriz_set_pixel x y r2 g2 b2 s /\
  matriz_set_pixel x y r2 g2 b2 (matriz_set_pixel x y r2 g2 b2 s)
  = matriz_set_pixel x y r2 g2 b2 s.
Proof.
  intros Hgrid. rewrite !set_pixel_in_grid by exact Hgrid.
  unfold set_buffer; simpl.
  rewrite !list_insert_insert_eq. split; reflexivity.
Qed.

Lemma matriz_set_pixel_last_write_wins_witness :
  matriz_set_pixel 3 2 4 5 6 (matriz_set_pixel 3 2 1 2 3 machine_init)
  = matriz_set_pixel 3 2 4 5 6 machine_init.
Proof.
  refine (proj1 (matriz_set_pixel_last_write_wins machine_init 3 2 1 2 3 4 5 6 _)).
  unfold in_grid. lia.
Defined.

(** ** The 24-bit invariant *)

(** C10: every word of the buffer is below 2^24 (its upper 8 bits are zero):
    so it is for the zero-initialised buffer, and [matriz_limpar] and
    [matriz_set_pixel] (at any coordinate, with 8-bit channels) keep it so,
    the packed word of 8-bit channels being below 2^24. *)
Theorem buffer_words_24bit :
  buffer_inv machine_init /\
  (forall s, wf s -> buffer_inv s -> buffer_inv (matriz_limpar s)) /\
  (forall s x y r g b,
     is_u8 r -> is_u8 g -> is_u8 b ->
     buffer_inv s -> buffer_inv (matriz_set_pixel x y r g b s)) /\
  (forall r g b, is_u8 r -> is_u8 g -> is_u8 b -> 0 <= urgb_u32 r g b < 2 ^ 24).
Proof.
  split; [|split; [|split]].
  - unfold buffer_inv, machine_init; cbn [matriz_buffer].
    apply Forall_replicate. lia.
  - intros s Hwf _. unfold buffer_inv.
    rewrite matriz_limpar_buffer by exact Hwf. apply Forall_replicate. lia.
  - intros s x y r g b Hr Hg Hb Hinv. unfold matriz_set_pixel.
    destruct ((x <? 5) && (y <? 5)); [|exact Hinv].
    unfold buffer_inv, set_buffer; simpl.
    apply Forall_insert; [exact Hinv|]. apply urgb_u32_24bit; assumption.
  - intros r g b Hr Hg Hb. apply urgb_u32_24bit; assumption.
Qed.

Lemma buffer_words_24bit_witness :
  buffer_inv (matriz_set_pixel 4 4 255 255 255 (matriz_limpar machine_init)).
Proof.
  apply (proj1 (proj2 (proj2 buffer_words_24bit))); [unfold is_u8; lia ..|].
  apply (proj1 (proj2 buffer_words_24bit)); [reflexivity|].
  apply (proj1 buffer_words_24bit).
Defined.

(** ** render *)

(** State of the loop of [matriz_renderizar] after [k] iterations. *)
Lemma renderizar_loop (s : machine) (k : nat) :
  (k <= length (matriz_buffer s))%nat ->
  foldl (fun st i => put_pixel_raw (matriz_buffer st !!! Z.to_nat i) st)
        s (seqZ 0 (Z.of_nat k))
  = Machine (matriz_buffer s)
            (pio_tx s ++ map wire_word (take k (matriz_buffer s))).
Proof.
  induction k as [|k IH]; intros Hk.
  - destruct s as [buf tx]. simpl. rewrite app_nil_r. reflexivity.
  - rewrite seqZ_S, foldl_snoc, IH by lia.
    destruct (lookup_lt_is_Some_2 (matriz_buffer s) k ltac:(lia)) as [w Hw].
    unfold put_pixel_raw, pio_sm_put_blocking; cbn [matriz_buffer pio_tx].
    replace (Z.to_nat (0 + Z.of_nat k)) with k by lia.
    rewrite (list_lookup_total_correct _ _ _ Hw).
    rewrite (take_S_r _ _ _ Hw), map_app, <- app_assoc. reflexivity.
Qed.

Lemma matriz_renderizar_unfold (s : machine) :
  wf s ->
  matriz_renderizar s
  = Machine (matriz_buffer s) (pio_tx s ++ map wire_word (matriz_buffer s)).
Proof.
  intros Hwf. unfold matriz_renderizar.
  replace LED_COUNT with (Z.of_nat (Z.to_nat LED_COUNT)) by reflexivity.
  rewrite renderizar_loop by (rewrite Hwf; lia).
  rewrite <- Hwf, firstn_all. reflexivity.
Qed.

Lemma shl32_24bit (w : Z) : 0 <= w < 2 ^ 24 -> shl32 w 8 = Z.shiftl w 8.
Proof.
  intros Hw. apply shl32_small; [lia|lia|]. rewrite UINT_MOD_value. lia.
Qed.

(** The array keeps its declared size through every call of the API. *)
Lemma machine_init_wf : wf machine_init.
Proof. reflexivity. Qed.

Lemma matriz_renderizar_wf (s : machine) : wf s -> wf (matriz_renderizar s).
Proof.
  intros Hwf. rewrite matriz_renderizar_unfold by exact Hwf. exact Hwf.
Qed.

(** C5: from any buffer state, [matriz_renderizar] hands exactly 25 words to
    [pio_sm_put_blocking], one per slot in slot order 0..24, the word for
    slot [i] being the stored word shifted left by 8 bits (as a 32-bit
    shift, which loses nothing on words below 2^24); the buffer is only
    read. *)
Theorem matriz_renderizar_transmits (s : machine) :
  wf s ->
  pio_tx (matriz_renderizar s)
  = pio_tx s ++ map (fun w => Put pio0 0 (shl32 w 8)) (matriz_buffer s) /\
  length (pio_tx (matriz_renderizar s)) = (length (pio_tx s) + 25)%nat /\
  (forall i : nat, (i < 25)%nat ->
     exists w, matriz_buffer s !! i = Some w /\
       pio_tx (matriz_renderizar s) !! (length (pio_tx s) + i)%nat
       = Some (Put pio0 0 (shl32 w 8))) /\
  (buffer_inv s ->
     pio_tx (matriz_renderizar s)
     = pio_tx s ++ map (fun w => Put pio0 0 (Z.shiftl w 8)) (matriz_buffer s)) /\
  matriz_buffer (matriz_renderizar s) = matriz_buffer s.
Proof.
  intros Hwf. rewrite matriz_renderizar_unfold by exact Hwf.
  cbn [pio_tx matriz_buffer]. fold wire_word.
  split; [reflexivity|]. split; [|split; [|split]].
  - rewrite length_app, length_map, Hwf. reflexivity.
  - intros i Hi.
    destruct (lookup_lt_is_Some_2 (matriz_buffer s) i) as [w Hw].
    { rewrite Hwf. unfold LED_COUNT. lia. }
    exists w. split; [exact Hw|].
    rewrite lookup_app_r by lia.
    replace (length (pio_tx s) + i - length (pio_tx s))%nat with i by lia.
    rewrite list_lookup_fmap_Some. exists w. split; [reflexivity|exact Hw].
  - intros Hinv. f_equal. unfold buffer_inv in Hinv.
    induction Hinv as [|w ws Hw _ IH]; [reflexivity|].
    simpl. rewrite IH. unfold wire_word. rewrite shl32_24bit by exact Hw.
    reflexivity.
  - reflexivity.
Qed.

Lemma matriz_renderizar_transmits_witness :
  pio_tx (matriz_renderizar (matriz_set_pixel 0 0 255 0 128 machine_init))
  = pio_tx (matriz_set_pixel 0 0 255 0 128 machine_init)
    ++ map (fun w => Put pio0 0 (shl32 w 8))
           (matriz_buffer (matriz_set_pixel 0 0 255 0 128 machine_init)).
Proof.
  refine (proj1 (matriz_renderizar_transmits
                   (matriz_set_pixel 0 0 255 0 128 machine_init) _)).
  reflexivity.
Defined.

(** C6: [matriz_limpar] followed by [matriz_renderizar] hands exactly 25
    zero words to the transmitter, slots 0 to 24 in order, whatever the
    buffer held before. *)
Theorem matriz_limpar_renderizar_zeros (s : machine) :
  wf s ->
  pio_tx (matriz_renderizar (matriz_limpar s))
  = pio_tx s ++ replicate 25 (Put pio0 0 0).
Proof.
  intros Hwf.
  rewrite matriz_renderizar_unfold by (apply matriz_limpar_wf; exact Hwf).
  cbn [pio_tx]. rewrite matriz_limpar_buffer by exact Hwf.
  reflexivity.
Qed.

Lemma matriz_limpar_renderizar_zeros_witness :
  pio_tx (matriz_renderizar (matriz_limpar (matriz_set_pixel 2 2 1 2 3 machine_init)))
  = pio_tx (matriz_set_pixel 2 2 1 2 3 machine_init) ++ replicate 25 (Put pio0 0 0).
Proof.
  apply matriz_limpar_renderizar_zeros. reflexivity.
Defined.

(** * Further properties of the driver *)

(** ** Channels of a packed word *)

Lemma land_shiftl_low (a b n : Z) :
  0 <= n -> 0 <= b < 2 ^ n -> Z.land (Z.shiftl a n) b = 0.
Proof.
  intros Hn Hb. apply Z.bits_inj'. intros i Hi.
  rewrite Z.land_spec, Z.bits_0.
  destruct (Z.lt_ge_cases i n) as [Hlt|Hge].
  - rewrite Z.shiftl_spec_low by exact Hlt. reflexivity.
  - rewrite <- (Z.mod_small b (2 ^ n)) by exact Hb.
    rewrite Z.mod_pow2_bits_high by lia. apply andb_false_r.
Qed.

Lemma lor_shiftl_low (a b n : Z) :
  0 <= n -> 0 <= b < 2 ^ n -> Z.lor (Z.shiftl a n) b = a * 2 ^ n + b.
Proof.
  intros Hn Hb.
  rewrite <- Z.add_nocarry_lor by (apply land_shiftl_low; assumption).
  rewrite Z.shiftl_mul_pow2 by exact Hn. reflexivity.
Qed.

(** The packed word is the base-256 number with digits g, r, b. *)
Lemma grb_word_digits (r g b : Z) :
  is_u8 r -> is_u8 b -> grb_word r g b = g * 65536 + r * 256 + b.
Proof.
  unfold is_u8, grb_word. intros Hr Hb.
  replace (Z.shiftl g 16) with (Z.shiftl (Z.shiftl g 8) 8)
    by (rewrite Z.shiftl_shiftl by lia; reflexivity).
  rewrite <- Z.shiftl_lor.
  rewrite (lor_shiftl_low g r 8) by lia.
  rewrite (lor_shiftl_low (g * 2 ^ 8 + r) b 8) by lia.
  lia.
Qed.

(** X1: the three channels can be read back from the word [urgb_u32] packs:
    bits 16..23 are g, bits 8..15 are r and bits 0..7 are b; so two colours
    with the same packed word are the same colour. *)
Theorem urgb_u32_channels (r g b : Z) :
  is_u8 r -> is_u8 g -> is_u8 b ->
  Z.land (Z.shiftr (urgb_u32 r g b) 16) 255 = g /\
  Z.land (Z.shiftr (urgb_u32 r g b) 8) 255 = r /\
  Z.land (urgb_u32 r g b) 255 = b.
Proof.
  intros Hr Hg Hb.
  rewrite urgb_u32_grb_word, grb_word_digits by assumption.
  unfold is_u8 in *.
  change 255 with (Z.ones 8).
  rewrite !Z.land_ones, !Z.shiftr_div_pow2 by lia.
  change (2 ^ 16) with 65536. change (2 ^ 8) with 256.
  repeat split; Z.div_mod_to_equations; lia.
Qed.

Lemma urgb_u32_channels_witness :
  Z.land (Z.shiftr (urgb_u32 255 0 128) 16) 255 = 0 /\
  Z.land (Z.shiftr (urgb_u32 255 0 128) 8) 255 = 255 /\
  Z.land (urgb_u32 255 0 128) 255 = 128.
Proof.
  apply urgb_u32_channels; unfold is_u8; lia.
Defined.

(** X2: [urgb_u32] is injective on 8-bit channels. *)
Theorem urgb_u32_injective (r g b r' g' b' : Z) :
  is_u8 r -> is_u8 g -> is_u8 b -> is_u8 r' -> is_u8 g' -> is_u8 b' ->
  urgb_u32 r g b = urgb_u32 r' g' b' -> r = r' /\ g = g' /\ b = b'.
Proof.
  intros Hr Hg Hb Hr' Hg' Hb' Heq.
  rewrite !urgb_u32_grb_word, !grb_word_digits in Heq by assumption.
  unfold is_u8 in *. lia.
Qed.

Lemma urgb_u32_injective_witness :
  urgb_u32 1 2 3 = urgb_u32 1 2 3 /\ (1 = 1 /\ 2 = 2 /\ 3 = 3).
Proof.
  split; [reflexivity|].
  apply (urgb_u32_injective 1 2 3 1 2 3); try reflexivity; unfold is_u8; lia.
Defined.

(** ** The word on the wire *)

Lemma shl32_grb_word (r g b : Z) :
  is_u8 r -> is_u8 g -> is_u8 b -> shl32 (urgb_u32 r g b) 8 = wire_grb r g b.
Proof.
  intros Hr Hg Hb.
  rewrite shl32_24bit by (apply urgb_u32_24bit; assumption).
  rewrite urgb_u32_grb_word, grb_word_digits by assumption.
  rewrite Z.shiftl_mul_pow2 by lia. unfold wire_grb. lia.
Qed.

(** X3: sending a packed colour with [put_pixel_raw] queues, on state
    machine 0 of pio0, the word whose bytes are g, r, b, 0 from the most
    significant down: the green-red-blue wire order, nothing lost in the
    32-bit shift. *)
Theorem put_pixel_raw_wire_order (s : machine) (r g b : Z) :
  is_u8 r -> is_u8 g -> is_u8 b ->
  put_pixel_raw (urgb_u32 r g b) s
  = Machine (matriz_buffer s)
            (pio_tx s ++ [Put pio0 0 (g * 2 ^ 24 + r * 2 ^ 16 + b * 2 ^ 8)]).
Proof.
  intros Hr Hg Hb. unfold put_pixel_raw, pio_sm_put_blocking.
  rewrite shl32_grb_word by assumption. reflexivity.
Qed.

Lemma put_pixel_raw_wire_order_witness :
  put_pixel_raw (urgb_u32 255 0 128) machine_init
  = Machine (matriz_buffer machine_init)
            (pio_tx machine_init ++ [Put pio0 0 (0 * 2 ^ 24 + 255 * 2 ^ 16 + 128 * 2 ^ 8)]).
Proof.
  apply put_pixel_raw_wire_order; unfold is_u8; lia.
Defined.

(** ** Staging several pixels *)

Lemma xy_to_index_inj (x y x' y' : Z) :
  in_grid x y -> in_grid x' y' ->
  xy_to_index x y = xy_to_index x' y' -> (x, y) = (x', y').
Proof.
  intros H H' Heq.
  rewrite !xy_to_index_no_wrap in Heq by assumption.
  rewrite <- (index_to_xy_serpentine x y H), <- (index_to_xy_serpentine x' y' H').
  rewrite Heq. reflexivity.
Qed.

Lemma slot_neq (x y x' y' : Z) :
  in_grid x y -> in_grid x' y' -> (x', y') <> (x, y) ->
  Z.to_nat (xy_to_index x' y') <> Z.to_nat (xy_to_index x y).
Proof.
  intros H H' Hne Heq. apply Hne.
  apply xy_to_index_inj; [exact H'|exact H|].
  pose proof (xy_to_index_range x y H). pose proof (xy_to_index_range x' y' H').
  lia.
Qed.

(** The guard of [matriz_set_pixel], on unsigned arguments, is the grid. *)
Lemma guard_in_grid (x y : Z) :
  is_uint x -> is_uint y -> (x <? 5) && (y <? 5) = true -> in_grid x y.
Proof.
  unfold is_uint, in_grid. intros Hx Hy Hguard.
  apply andb_true_iff in Hguard. destruct Hguard as [Hx5 Hy5].
  apply Z.ltb_lt in Hx5. apply Z.ltb_lt in Hy5. lia.
Qed.

(** X4: pixels staged at two different grid coordinates do not interfere:
    the two calls of [matriz_set_pixel] give the same machine in either
    order. *)
Theorem matriz_set_pixel_comm (s : machine) (x y r g b x' y' r' g' b' : Z) :
  in_grid x y -> in_grid x' y' -> (x', y') <> (x, y) ->
  matriz_set_pixel x' y' r' g' b' (matriz_set_pixel x y r g b s)
  = matriz_set_pixel x y r g b (matriz_set_pixel x' y' r' g' b' s).
Proof.
  intros H H' Hne. rewrite !set_pixel_in_grid by assumption.
  unfold set_buffer; cbn [matriz_buffer pio_tx]. f_equal.
  apply list_insert_insert_ne. apply slot_neq; assumption.
Qed.

Lemma matriz_set_pixel_comm_witness :
  matriz_set_pixel 4 3 9 9 9 (matriz_set_pixel 0 0 255 0 128 machine_init)
  = matriz_set_pixel 0 0 255 0 128 (matriz_set_pixel 4 3 9 9 9 machine_init).
Proof.
  apply matriz_set_pixel_comm; unfold in_grid; try lia. intros Heq. inversion Heq.
Defined.

(** X5: a staged pixel survives any later [matriz_set_pixel] aimed at
    another coordinate, on the grid or not: its slot still holds its packed
    colour. *)
Theorem matriz_set_pixel_survives (s : machine) (x y r g b x' y' r' g' b' : Z) :
  wf s -> in_grid x y -> is_u8 r -> is_u8 g -> is_u8 b ->
  is_uint x' -> is_uint y' -> (x', y') <> (x, y) ->
  matriz_buffer (matriz_set_pixel x' y' r' g' b' (matriz_set_pixel x y r g b s))
    !! Z.to_nat (xy_to_index x y)
  = Some (Z.lor (Z.lor (Z.shiftl g 16) (Z.shiftl r 8)) b).
Proof.
  intros Hwf H Hr Hg Hb Hx' Hy' Hne.
  assert (Hfirst : matriz_buffer (matriz_set_pixel x y r g b s)
                     !! Z.to_nat (xy_to_index x y) = Some (grb_word r g b)).
  { rewrite set_pixel_in_grid by exact H. cbn [set_buffer matriz_buffer].
    rewrite list_lookup_insert_eq by (apply set_pixel_index_in_bounds; assumption).
    rewrite urgb_u32_grb_word by assumption. reflexivity. }
  unfold matriz_set_pixel at 1.
  destruct ((x' <? 5) && (y' <? 5)) eqn:Hguard; [|exact Hfirst].
  cbn [set_buffer matriz_buffer].
  rewrite list_lookup_insert_ne; [exact Hfirst|].
  apply slot_neq; [exact H| |exact Hne].
  apply guard_in_grid; assumption.
Qed.

Lemma matriz_set_pixel_survives_witness :
  matriz_buffer (matriz_set_pixel 5 0 7 7 7 (matriz_set_pixel 4 1 10 20 30 machine_init))
    !! Z.to_nat (xy_to_index 4 1)
  = Some (Z.lor (Z.lor (Z.shiftl 20 16) (Z.shiftl 10 8)) 30).
Proof.
  apply matriz_set_pixel_survives;
    try reflexivity; unfold in_grid, is_u8, is_uint; rewrite ?UINT_MOD_value;
    try lia.
  intros Heq. inversion Heq.
Defined.

(** ** Clearing *)

Lemma run_calls_wf (cs : list api_call) (s : machine) :
  wf s -> wf (run_calls cs s).
Proof.
  revert s. induction cs as [|c cs IH]; intros s Hwf; [exact Hwf|].
  apply IH. destruct c; simpl.
  - apply matriz_limpar_wf. exact Hwf.
  - apply matriz_set_pixel_wf. exact Hwf.
  - apply matriz_renderizar_wf. exact Hwf.
Qed.

Lemma matriz_limpar_eq (s : machine) :
  wf s -> matriz_limpar s = Machine (replicate (Z.to_nat LED_COUNT) 0) (pio_tx s).
Proof.
  intros Hwf. pose proof (matriz_limpar_buffer s Hwf) as Hbuf.
  unfold matriz_limpar, set_buffer in *. cbn [matriz_buffer] in Hbuf.
  rewrite Hbuf. reflexivity.
Qed.

Lemma run_calls_no_render_tx (cs : list api_call) (s : machine) :
  wf s -> count_renders cs = 0%nat -> pio_tx (run_calls cs s) = pio_tx s.
Proof.
  revert s. induction cs as [|c cs IH]; intros s Hwf Hcount; [reflexivity|].
  destruct c; simpl in *.
  - rewrite IH by (try apply matriz_limpar_wf; assumption).
    rewrite matriz_limpar_eq by exact Hwf. reflexivity.
  - rewrite IH by (try apply matriz_set_pixel_wf; assumption).
    unfold matriz_set_pixel. destruct ((x <? 5) && (y <? 5)); reflexivity.
  - discriminate Hcount.
Qed.

(** X6: [matriz_limpar] discards everything staged: after any sequence of
    [matriz_set_pixel] and [matriz_limpar] calls (no render in between), the
    machine it leaves is the one it leaves when called at once; so it is
    idempotent. *)
Theorem matriz_limpar_discards_staged (cs : list api_call) (s : machine) :
  wf s -> count_renders cs = 0%nat ->
  matriz_limpar (run_calls cs s) = matriz_limpar s /\
  matriz_limpar (matriz_limpar s) = matriz_limpar s.
Proof.
  intros Hwf Hcount. split.
  - rewrite !matriz_limpar_eq by (try apply run_calls_wf; exact Hwf).
    rewrite run_calls_no_render_tx by assumption. reflexivity.
  - rewrite (matriz_limpar_eq (matriz_limpar s)) by (apply matriz_limpar_wf; exact Hwf).
    rewrite (matriz_limpar_eq s) by exact Hwf. reflexivity.
Qed.

Lemma matriz_limpar_discards_staged_witness :
  matriz_limpar
    (run_calls [CallSetPixel 1 1 9 8 7; CallSetPixel 6 1 1 1 1; CallSetPixel 0 4 1 2 3]
               machine_init)
  = matriz_limpar machine_init.
Proof.
  refine (proj1 (matriz_limpar_discards_staged _ machine_init _ _)); reflexivity.
Defined.

(** ** Frames on the wire *)

(** X7: a whole frame with one LED lit: after [matriz_limpar],
    [matriz_set_pixel x y r g b] on the grid and [matriz_renderizar], the
    transmitter has received 25 words, all zero except the one at position
    [xy_to_index x y], which carries the colour in wire order. *)
Theorem renderizar_single_pixel (s : machine) (x y r g b : Z) :
  wf s -> in_grid x y -> is_u8 r -> is_u8 g -> is_u8 b ->
  pio_tx (matriz_renderizar (matriz_set_pixel x y r g b (matriz_limpar s)))
  = pio_tx s ++
    <[ Z.to_nat (xy_to_index x y) := Put pio0 0 (g * 2 ^ 24 + r * 2 ^ 16 + b * 2 ^ 8) ]>
      (replicate 25 (Put pio0 0 0)).
Proof.
  intros Hwf H Hr Hg Hb.
  rewrite matriz_renderizar_unfold
    by (apply matriz_set_pixel_wf, matriz_limpar_wf; exact Hwf).
  rewrite set_pixel_in_grid by exact H.
  rewrite matriz_limpar_eq by exact Hwf.
  cbn [set_buffer matriz_buffer pio_tx]. f_equal.
  rewrite list_fmap_insert. unfold wire_word at 1.
  rewrite shl32_grb_word by assumption. reflexivity.
Qed.

Lemma renderizar_single_pixel_witness :
  pio_tx (matriz_renderizar (matriz_set_pixel 0 0 255 0 128 (matriz_limpar machine_init)))
  = pio_tx machine_init ++
    <[ Z.to_nat (xy_to_index 0 0) := Put pio0 0 (0 * 2 ^ 24 + 255 * 2 ^ 16 + 128 * 2 ^ 8) ]>
      (replicate 25 (Put pio0 0 0)).
Proof.
  apply renderizar_single_pixel;
    try reflexivity; unfold in_grid, is_u8; lia.
Defined.

(** X8: rendering does not consume the buffer: a second [matriz_renderizar]
    sends the same 25 words again, after those of the first. *)
Theorem matriz_renderizar_twice (s : machine) :
  wf s ->
  pio_tx (matriz_renderizar (matriz_renderizar s))
  = pio_tx s ++ map (fun w => Put pio0 0 (shl32 w 8)) (matriz_buffer s)
             ++ map (fun w => Put pio0 0 (shl32 w 8)) (matriz_buffer s).
Proof.
  intros Hwf.
  rewrite (matriz_renderizar_unfold (matriz_renderizar s))
    by (apply matriz_renderizar_wf; exact Hwf).
  rewrite (matriz_renderizar_unfold s) by exact Hwf.
  cbn [matriz_buffer pio_tx]. rewrite <- app_assoc. reflexivity.
Qed.

Lemma matriz_renderizar_twice_witness :
  pio_tx (matriz_renderizar (matriz_renderizar machine_init))
  = pio_tx machine_init
    ++ map (fun w => Put pio0 0 (shl32 w 8)) (matriz_buffer machine_init)
    ++ map (fun w => Put pio0 0 (shl32 w 8)) (matriz_buffer machine_init).
Proof.
  apply matriz_renderizar_twice. reflexivity.
Defined.

Lemma shl32_8_padding (w : Z) :
  0 <= shl32 w 8 < UINT_MOD /\ shl32 w 8 mod 256 = 0.
Proof.
  unfold shl32, wrap32. rewrite Z.shiftl_mul_pow2 by lia.
  rewrite UINT_MOD_value. change (2 ^ 8) with 256.
  split; Z.div_mod_to_equations; lia.
Qed.

(** X9: whatever the buffer holds, every word [matriz_renderizar] queues goes
    to state machine 0 of pio0, is a 32-bit value and has its low 8 bits
    clear. *)
Theorem matriz_renderizar_padding (s : machine) (e : tx_event) :
  wf s ->
  e ∈ drop (length (pio_tx s)) (pio_tx (matriz_renderizar s)) ->
  tx_pio e = pio0 /\ tx_sm e = 0 /\
  0 <= tx_data e < 2 ^ 32 /\ tx_data e mod 256 = 0.
Proof.
  intros Hwf He.
  rewrite matriz_renderizar_unfold in He by exact Hwf.
  cbn [pio_tx] in He. rewrite drop_app_length in He.
  apply list_elem_of_fmap in He. destruct He as (w & -> & _).
  unfold wire_word; cbn [tx_pio tx_sm tx_data].
  pose proof (shl32_8_padding w) as [Hrange Hlow].
  repeat split; solve [apply Hrange | exact Hlow].
Qed.

Lemma matriz_renderizar_padding_witness :
  tx_pio (Put pio0 0 16744448) = pio0 /\ tx_sm (Put pio0 0 16744448) = 0 /\
  0 <= tx_data (Put pio0 0 16744448) < 2 ^ 32 /\
  tx_data (Put pio0 0 16744448) mod 256 = 0.
Proof.
  apply (matriz_renderizar_padding (matriz_set_pixel 0 0 255 0 128 machine_init));
    [reflexivity|].
  vm_compute. do 20 apply list_elem_of_further. apply list_elem_of_here.
Defined.

(** ** Any client *)

Lemma matriz_set_pixel_tx (x y r g b : Z) (s : machine) :
  pio_tx (matriz_set_pixel x y r g b s) = pio_tx s.
Proof.
  unfold matriz_set_pixel. destruct ((x <? 5) && (y <? 5)); reflexivity.
Qed.

Lemma matriz_set_pixel_inv (x y r g b : Z) (s : machine) :
  is_u8 r -> is_u8 g -> is_u8 b ->
  buffer_inv s -> buffer_inv (matriz_set_pixel x y r g b s).
Proof.
  intros Hr Hg Hb Hinv. unfold matriz_set_pixel.
  destruct ((x <? 5) && (y <? 5)); [|exact Hinv].
  unfold buffer_inv, set_buffer; cbn [matriz_buffer].
  apply Forall_insert; [exact Hinv|]. apply urgb_u32_24bit; assumption.
Qed.

Lemma matriz_limpar_inv (s : machine) : wf s -> buffer_inv (matriz_limpar s).
Proof.
  intros Hwf. unfold buffer_inv. rewrite matriz_limpar_buffer by exact Hwf.
  apply Forall_replicate. lia.
Qed.

Lemma run_calls_invariants (cs : list api_call) (s : machine) :
  wf s -> buffer_inv s -> Forall call_typed cs ->
  wf (run_calls cs s) /\ buffer_inv (run_calls cs s) /\
  length (pio_tx (run_calls cs s))
  = (length (pio_tx s) + 25 * count_renders cs)%nat.
Proof.
  revert s. induction cs as [|c cs IH]; intros s Hwf Hinv Htyped.
  - simpl. repeat split; [exact Hwf|exact Hinv|lia].
  - apply Forall_cons in Htyped. destruct Htyped as [Hc Hcs].
    destruct c as [|x y r g b|]; simpl.
    + destruct (IH (matriz_limpar s)) as (H1 & H2 & H3);
        [apply matriz_limpar_wf; exact Hwf
        |apply matriz_limpar_inv; exact Hwf|exact Hcs|].
      repeat split; [exact H1|exact H2|].
      rewrite H3, matriz_limpar_eq by exact Hwf. reflexivity.
    + destruct Hc as (_ & _ & Hr & Hg & Hb).
      destruct (IH (matriz_set_pixel x y r g b s)) as (H1 & H2 & H3);
        [apply matriz_set_pixel_wf; exact Hwf
        |apply matriz_set_pixel_inv; assumption|exact Hcs|].
      repeat split; [exact H1|exact H2|].
      rewrite H3, matriz_set_pixel_tx. reflexivity.
    + destruct (IH (matriz_renderizar s)) as (H1 & H2 & H3);
        [apply matriz_renderizar_wf; exact Hwf
        |unfold buffer_inv; rewrite matriz_renderizar_unfold by exact Hwf; exact Hinv
        |exact Hcs|].
      repeat split; [exact H1|exact H2|].
      rewrite H3, matriz_renderizar_unfold by exact Hwf. cbn [pio_tx].
      rewrite length_app, length_map, Hwf. unfold LED_COUNT. lia.
Qed.

(** X10: whatever sequence of [matriz_limpar], [matriz_set_pixel] and
    [matriz_renderizar] calls a client makes from start-up, with arguments of
    the parameters' types (any coordinates, in range or not), the buffer still
    has its 25 slots, every stored word is below 2^24, and the transmitter
    has received exactly 25 words per render. *)
Theorem client_invariants (cs : list api_call) :
  Forall call_typed cs ->
  length (matriz_buffer (run_calls cs machine_init)) = 25%nat /\
  buffer_inv (run_calls cs machine_init) /\
  length (pio_tx (run_calls cs machine_init)) = (25 * count_renders cs)%nat.
Proof.
  intros Htyped.
  destruct (run_calls_invariants cs machine_init) as (H1 & H2 & H3);
    [reflexivity| |exact Htyped|].
  - unfold buffer_inv, machine_init; cbn [matriz_buffer].
    apply Forall_replicate. lia.
  - repeat split; [exact H1|exact H2|exact H3].
Qed.

Lemma client_invariants_witness :
  length (pio_tx (run_calls
    [CallSetPixel 0 0 255 0 128; CallRenderizar; CallSetPixel 9 9 1 1 1;
     CallLimpar; CallRenderizar] machine_init)) = 50%nat.
Proof.
  refine (proj2 (proj2 (client_invariants
    [CallSetPixel 0 0 255 0 128; CallRenderizar; CallSetPixel 9 9 1 1 1;
     CallLimpar; CallRenderizar] _))).
  repeat constructor; unfold is_uint, is_u8; rewrite ?UINT_MOD_value; lia.
Defined.

(** ** The mapper around the grid *)

Ltac grid_cases v H :=
  let Hc := fresh "Hc" in
  assert (Hc : v = 0 \/ v = 1 \/ v = 2 \/ v = 3 \/ v = 4) by lia;
  clear H; destruct Hc as [ -> | [ -> | [ -> | [ -> | -> ] ] ] ].

(** X11: [xy_to_index] itself does not reject a coordinate just past the
    grid. At x = 5 it returns 25, one past the array, on row y = 0 and the
    slot of the pixel (4, y + 1) or (4, y - 1) on the other rows; at y = 5 it
    wraps to 2^32 - 1 - x, far outside the array. Only the guard of
    [matriz_set_pixel] keeps such stores away. *)
Theorem xy_to_index_past_grid :
  (forall y, 0 <= y <= 4 ->
     xy_to_index 5 y =
     if y =? 0 then LED_COUNT
     else xy_to_index 4 (if Z.odd y then y + 1 else y - 1)) /\
  (forall x, 0 <= x <= 4 ->
     xy_to_index x 5 = UINT_MOD - 1 - x /\ LED_COUNT <= xy_to_index x 5).
Proof.
  split.
  - intros y Hy. grid_cases y Hy; reflexivity.
  - intros x Hx. grid_cases x Hx; split; vm_compute; congruence.
Qed.

Lemma xy_to_index_past_grid_witness :
  xy_to_index 5 3 = xy_to_index 4 4 /\ xy_to_index 2 5 = UINT_MOD - 1 - 2.
Proof.
  split.
  - apply (proj1 xy_to_index_past_grid 3). lia.
  - apply (proj2 xy_to_index_past_grid 2). lia.
Defined.

(** X12: the wire snakes through the grid: two pixels whose slots are
    consecutive are neighbours on the grid (one step apart in a row or in a
    column), so slot order never jumps across the board. *)
Theorem xy_to_index_consecutive_adjacent (x y x' y' : Z) :
  in_grid x y -> in_grid x' y' ->
  xy_to_index x' y' = xy_to_index x y + 1 ->
  Z.abs (x' - x) + Z.abs (y' - y) = 1.
Proof.
  intros H H' Heq.
  assert (Hxy : (x', y') = index_to_xy (xy_to_index x y + 1)).
  { rewrite <- Heq, xy_to_index_no_wrap by exact H'.
    symmetry. apply index_to_xy_serpentine. exact H'. }
  destruct H as [Hx Hy]. destruct H' as [Hx' Hy']. clear Heq.
  grid_cases x Hx; grid_cases y Hy;
    vm_compute in Hxy; inversion Hxy; subst; solve [reflexivity | lia].
Qed.

Lemma xy_to_index_consecutive_adjacent_witness :
  Z.abs (4 - 4) + Z.abs (3 - 4) = 1.
Proof.
  apply xy_to_index_consecutive_adjacent; unfold in_grid; try lia. reflexivity.
Defined.
